(** * Lempel-Ziv decomposition and complexity (lempel_ziv_complexity.py)

    A shallow embedding of the two entry points of the module,
    [lempel_ziv_decomposition] and [lempel_ziv_complexity_slow], and the
    properties of the greedy parse they both run.

    Python values are modelled as follows.
    - A sequence is a container kind (str, tuple or list) together with
      its symbols; slicing keeps the kind.  Symbols are atoms with a
      decidable equality (characters, digits, integers), all hashable.
    - The integers [ind] and [inc] start at 0 and 1 and only grow, so
      they are natural numbers.
    - [sub_strings] is a Python dict: keys in insertion order, each key
      at most once, and a key has to be hashable, so a str or a tuple is
      accepted and a list raises TypeError.
    - An exception is a value of the [result] type.
    - The decorator [jit] does not change what a function computes. *)

From Equations Require Import Equations.
From Equations.Prop Require Import Logic.
From Stdlib Require Import Ascii String.
From stdpp Require Import base decidable option list strings.

Set Default Proof Using "Type".

(** ** Results and exceptions *)

Inductive exn := TypeError.

Inductive result (T : Type) :=
| Ok (v : T)
| Raise (e : exn).
Arguments Ok {T} v.
Arguments Raise {T} e.

#[global] Instance result_ret : MRet result := fun _ v => Ok v.
#[global] Instance result_bind : MBind result := fun _ _ f r =>
  match r with Ok v => f v | Raise e => Raise e end.
#[global] Instance result_fmap : FMap result := fun _ _ f r =>
  match r with Ok v => Ok (f v) | Raise e => Raise e end.

(** The test [i > j] on integers. *)
#[global] Instance nat_gt_dec : RelDecision gt := gt_dec.

(** ** Sequences *)

Inductive seq_kind := PyStr | PyTuple | PyList.

#[global] Instance seq_kind_eq_dec : EqDecision seq_kind.
Proof. solve_decision. Defined.

Record pyseq (A : Type) := PySeq { kind : seq_kind; items : list A }.
Arguments PySeq {A} kind items.
Arguments kind {A} p.
Arguments items {A} p.

#[global] Instance pyseq_eq_dec {A} `{EqDecision A} : EqDecision (pyseq A).
Proof. solve_decision. Defined.

(** [len(sequence)]. *)
Definition len {A} (sequence : pyseq A) : nat := length (items sequence).

(** [sequence[i : j]] for indices [0 <= i] and [0 <= j]: a slice never
    raises, it is cut at the end of the sequence and is empty when
    [j <= i]. *)
Definition slice {A} (sequence : pyseq A) (i j : nat) : pyseq A :=
  PySeq (kind sequence) (take (j - i) (drop i (items sequence))).

(** [hash(sequence)] succeeds on a str and on a tuple of atoms, and
    raises TypeError on a list. *)
Definition hashable {A} (sequence : pyseq A) : bool :=
  match kind sequence with
  | PyStr | PyTuple => true
  | PyList => false
  end.

(** A str literal. *)
Definition str (s : string) : pyseq ascii := PySeq PyStr (list_ascii_of_string s).
Arguments str s%_string.

(** ** Dictionaries *)

Section Dict.
Context {A : Type} `{EqDecision A}.

(** The entries of a dict, in insertion order. *)
Definition dict : Type := list (pyseq A * nat).

(** [list(d)]: the keys in insertion order. *)
Definition dict_keys (d : dict) : list (pyseq A) := d.*1.

(** [len(d)]. *)
Definition dict_len (d : dict) : nat := length d.

(** [k in d]. *)
Definition dict_contains (d : dict) (k : pyseq A) : result bool :=
  if hashable k then Ok (bool_decide (k ∈ dict_keys d)) else Raise TypeError.

(** The entries after [d[k] = v]: the value of a present key is
    replaced where it stands, a new key goes to the end. *)
Fixpoint dict_store (d : dict) (k : pyseq A) (v : nat) : dict :=
  match d with
  | [] => [(k, v)]
  | (k', v') :: d' =>
      if decide (k' = k) then (k', v) :: d' else (k', v') :: dict_store d' k v
  end.

(** [d[k] = v]. *)
Definition dict_setitem (d : dict) (k : pyseq A) (v : nat) : result dict :=
  if hashable k then Ok (dict_store d k v) else Raise TypeError.
End Dict.
Arguments dict A : clear implicits.

(** ** The parse loop *)

Section Parser.
Context {A : Type} `{EqDecision A}.

(** The local variables of both functions. *)
Record state := State { sub_strings : dict A; ind : nat; inc : nat }.

(** What one run of the body of [while True:] does. *)
Inductive control :=
| Break
| Continue (st : state).

(** [sub_strings = {}], [ind = 0], [inc = 1]. *)
Definition initial : state := State [] 0 1.

(** Lines 84-93, the loop body of [lempel_ziv_decomposition]. *)
Definition decomposition_body (sequence : pyseq A) (st : state) : result control :=
  if decide (ind st + inc st > len sequence) then Ok Break
  else
    let sub_str := slice sequence (ind st) (ind st + inc st) in
    found ← dict_contains (sub_strings st) sub_str;
    if (found : bool) then
      Ok (Continue (State (sub_strings st) (ind st) (inc st + 1)))
    else
      d ← dict_setitem (sub_strings st) sub_str 0;
      Ok (Continue (State d (ind st + inc st) 1)).

(** Lines 133-141, the loop body of [lempel_ziv_complexity_slow]. *)
Definition complexity_body (sequence : pyseq A) (st : state) : result control :=
  if decide (ind st + inc st > len sequence) then Ok Break
  else
    let sub_str := slice sequence (ind st) (ind st + inc st) in
    found ← dict_contains (sub_strings st) sub_str;
    if (found : bool) then
      Ok (Continue (State (sub_strings st) (ind st) (inc st + 1)))
    else
      d ← dict_setitem (sub_strings st) sub_str 0;
      Ok (Continue (State d (ind st + inc st) 1)).

(** The distance of [ind + inc] to [len(sequence) + 1]. *)
Definition remaining (sequence : pyseq A) (st : state) : nat :=
  S (len sequence) - (ind st + inc st).

Lemma decomposition_body_remaining sequence st st' :
  decomposition_body sequence st = Ok (Continue st') →
  remaining sequence st' < remaining sequence st.
Proof.
  unfold decomposition_body, remaining.
  destruct (decide _) as [|Hle]; [done|].
  destruct (dict_contains _ _) as [[|]|]; simpl; [| |done].
  - intros [= <-]; simpl; lia.
  - destruct (dict_setitem _ _ _); simpl; [|done].
    intros [= <-]; simpl; lia.
Qed.

Lemma complexity_body_remaining sequence st st' :
  complexity_body sequence st = Ok (Continue st') →
  remaining sequence st' < remaining sequence st.
Proof. exact (decomposition_body_remaining sequence st st'). Qed.

(** [while True:] around the body of [lempel_ziv_decomposition]; the
    result is the state at the [break]. *)
Equations? decomposition_loop (sequence : pyseq A) (st : state) : result state
  by wf (remaining sequence st) lt :=
decomposition_loop sequence st with inspect (decomposition_body sequence st) := {
  | exist _ (Ok Break) _ => Ok st
  | exist _ (Ok (Continue st')) Hbody => decomposition_loop sequence st'
  | exist _ (Raise e) _ => Raise e }.
Proof. by apply decomposition_body_remaining. Qed.

(** [while True:] around the body of [lempel_ziv_complexity_slow]. *)
Equations? complexity_loop (sequence : pyseq A) (st : state) : result state
  by wf (remaining sequence st) lt :=
complexity_loop sequence st with inspect (complexity_body sequence st) := {
  | exist _ (Ok Break) _ => Ok st
  | exist _ (Ok (Continue st')) Hbody => complexity_loop sequence st'
  | exist _ (Raise e) _ => Raise e }.
Proof. by apply complexity_body_remaining. Qed.

(** Lines 78-95. *)
Definition lempel_ziv_decomposition (sequence : pyseq A) : result (list (pyseq A)) :=
  st ← decomposition_loop sequence initial;
  Ok (dict_keys (sub_strings st)).

(** Lines 127-142. *)
Definition lempel_ziv_complexity_slow (sequence : pyseq A) : result nat :=
  st ← complexity_loop sequence initial;
  Ok (dict_len (sub_strings st)).
End Parser.
Arguments state A : clear implicits.
Arguments control A : clear implicits.

(** [while True:] cut off after [fuel] runs of the body: [None] when the
    loop is still running then. *)
Fixpoint unroll {A} (body : state A → result (control A)) (fuel : nat)
    (st : state A) : option (result (state A)) :=
  match fuel with
  | 0 => None
  | S fuel' =>
      match body st with
      | Ok Break => Some (Ok st)
      | Ok (Continue st') => unroll body fuel' st'
      | Raise e => Some (Raise e)
      end
  end.

(** ** The dict *)

Section DictFacts.
Context {A : Type} `{EqDecision A}.
Implicit Types (d : dict A) (k : pyseq A).

Lemma dict_len_keys d : dict_len d = length (dict_keys d).
Proof. unfold dict_len, dict_keys. by rewrite length_fmap. Qed.

Lemma dict_store_fresh d k v :
  k ∉ dict_keys d → dict_store d k v = d ++ [(k, v)].
Proof.
  unfold dict_keys. induction d as [|[k' v'] d IH]; simpl; [done|].
  rewrite not_elem_of_cons. intros [Hne Hnotin].
  rewrite decide_False by done. f_equal. by apply IH.
Qed.

Lemma dict_store_keys_present d k v :
  k ∈ dict_keys d → dict_keys (dict_store d k v) = dict_keys d.
Proof.
  unfold dict_keys. induction d as [|[k' v'] d IH]; simpl.
  - by intros ?%elem_of_nil.
  - destruct (decide (k' = k)) as [->|Hne]; [done|].
    rewrite elem_of_cons. intros [?|Hin]; [congruence|].
    rewrite !fmap_cons. f_equal. by apply IH.
Qed.

(** A dict never holds a key twice, whatever is stored in it. *)
Lemma dict_store_NoDup d k v :
  NoDup (dict_keys d) → NoDup (dict_keys (dict_store d k v)).
Proof.
  intros Hd. destruct (decide (k ∈ dict_keys d)) as [Hin|Hnotin].
  - by rewrite dict_store_keys_present.
  - rewrite dict_store_fresh by done. unfold dict_keys in *.
    rewrite fmap_app. simpl. apply NoDup_app. split_and!; [done| |].
    + intros x Hx ->%list_elem_of_singleton. done.
    + apply NoDup_singleton.
Qed.
End DictFacts.

(** ** One run of the loop body *)

Section Body.
Context {A : Type} `{EqDecision A}.
Implicit Types (sequence : pyseq A) (st : state A).

(** The four ways through the body. *)
Inductive body_spec sequence st : result (control A) → Prop :=
| body_break :
    ind st + inc st > len sequence →
    body_spec sequence st (Ok Break)
| body_unhashable :
    ind st + inc st ≤ len sequence →
    hashable sequence = false →
    body_spec sequence st (Raise TypeError)
| body_grow :
    ind st + inc st ≤ len sequence →
    hashable sequence = true →
    slice sequence (ind st) (ind st + inc st) ∈ dict_keys (sub_strings st) →
    body_spec sequence st
      (Ok (Continue (State (sub_strings st) (ind st) (inc st + 1))))
| body_novel :
    ind st + inc st ≤ len sequence →
    hashable sequence = true →
    slice sequence (ind st) (ind st + inc st) ∉ dict_keys (sub_strings st) →
    body_spec sequence st
      (Ok (Continue
        (State (sub_strings st ++ [(slice sequence (ind st) (ind st + inc st), 0)])
               (ind st + inc st) 1))).

Lemma decomposition_body_spec sequence st :
  body_spec sequence st (decomposition_body sequence st).
Proof.
  unfold decomposition_body.
  destruct (decide _) as [Hgt|Hle]; [by constructor|].
  apply Nat.nlt_ge in Hle.
  unfold dict_contains, dict_setitem.
  change (hashable (slice sequence _ _)) with (hashable sequence).
  destruct (hashable sequence) eqn:Hhash; simpl; [|by constructor].
  case_bool_decide as Hin; simpl.
  - by constructor.
  - rewrite dict_store_fresh by done. by constructor.
Qed.

(** A slice is taken only where it lies within the sequence: it has
    [inc] symbols. *)
Lemma decomposition_body_slice sequence st :
  decomposition_body sequence st ≠ Ok Break →
  ind st + inc st ≤ len sequence
  ∧ len (slice sequence (ind st) (ind st + inc st)) = inc st.
Proof.
  destruct (decomposition_body_spec sequence st) as [|Hle|Hle|Hle];
    [done|intros _..];
    (split; [done|]; unfold len, slice in *; simpl;
     rewrite length_take, length_drop; lia).
Qed.

Lemma complexity_body_eq sequence st :
  complexity_body sequence st = decomposition_body sequence st.
Proof. reflexivity. Qed.

Lemma complexity_body_spec sequence st :
  body_spec sequence st (complexity_body sequence st).
Proof. rewrite complexity_body_eq. apply decomposition_body_spec. Qed.
End Body.

(** ** The loops *)

Section Loops.
Context {A : Type} `{EqDecision A}.
Implicit Types (sequence : pyseq A) (st : state A).

Lemma decomposition_loop_eq sequence st :
  decomposition_loop sequence st =
  match decomposition_body sequence st with
  | Ok Break => Ok st
  | Ok (Continue st') => decomposition_loop sequence st'
  | Raise e => Raise e
  end.
Proof.
  rewrite decomposition_loop_unfold_eq at 1.
  unfold decomposition_loop_unfold.
  destruct (inspect (decomposition_body sequence st)) as [[[|st']|e] Hbody];
    cbn; rewrite Hbody; reflexivity.
Qed.

Lemma complexity_loop_eq sequence st :
  complexity_loop sequence st =
  match complexity_body sequence st with
  | Ok Break => Ok st
  | Ok (Continue st') => complexity_loop sequence st'
  | Raise e => Raise e
  end.
Proof.
  rewrite complexity_loop_unfold_eq at 1.
  unfold complexity_loop_unfold.
  destruct (inspect (complexity_body sequence st)) as [[[|st']|e] Hbody];
    cbn; rewrite Hbody; reflexivity.
Qed.

(** Induction on the number of runs of the body that are left. *)
Lemma remaining_ind sequence (P : state A → Prop) :
  (∀ st,
    (∀ st', remaining sequence st' < remaining sequence st → P st') → P st) →
  ∀ st, P st.
Proof.
  intros Hstep.
  assert (∀ m st, remaining sequence st < m → P st) as Hall.
  { induction m as [|m IH]; intros st Hlt; [lia|].
    apply Hstep. intros st' Hlt'. apply IH. lia. }
  intros st. apply (Hall (S (remaining sequence st))). lia.
Qed.

(** The loops of the two functions compute the same state. *)
Lemma complexity_loop_decomposition_loop sequence st :
  complexity_loop sequence st = decomposition_loop sequence st.
Proof.
  induction st as [st IH] using (remaining_ind sequence).
  rewrite complexity_loop_eq, decomposition_loop_eq, complexity_body_eq.
  destruct (decomposition_body sequence st) as [[|st']|e] eqn:Hbody; try done.
  by apply IH, decomposition_body_remaining.
Qed.

(** What holds before the loop and is kept by each run of the body
    holds at the [break], or at the raise. *)
Lemma decomposition_loop_rule sequence (I : state A → Prop) :
  (∀ st st',
    I st → decomposition_body sequence st = Ok (Continue st') → I st') →
  ∀ st, I st →
    match decomposition_loop sequence st with
    | Ok st' => I st' ∧ decomposition_body sequence st' = Ok Break
    | Raise e => ∃ st', I st' ∧ decomposition_body sequence st' = Raise e
    end.
Proof.
  intros Hkeep st.
  induction st as [st IH] using (remaining_ind sequence).
  intros HI. rewrite decomposition_loop_eq.
  destruct (decomposition_body sequence st) as [[|st']|e] eqn:Hbody.
  - done.
  - apply IH; [by apply decomposition_body_remaining|by eapply Hkeep].
  - eauto.
Qed.

(** The loop is over after at most [remaining] further runs of the
    body and one more for the [break]. *)
Lemma unroll_decomposition_loop sequence fuel st :
  remaining sequence st < fuel →
  unroll (decomposition_body sequence) fuel st
  = Some (decomposition_loop sequence st).
Proof.
  revert st. induction fuel as [|fuel IH]; intros st Hlt; [lia|].
  simpl. rewrite decomposition_loop_eq.
  destruct (decomposition_body sequence st) as [[|st']|e] eqn:Hbody; try done.
  apply IH. apply decomposition_body_remaining in Hbody. lia.
Qed.
End Loops.

(** ** The invariant of the parse *)

Section Invariant.
Context {A : Type} `{EqDecision A}.
Implicit Types (sequence : pyseq A) (st : state A).

(** The phrases found so far, in the order they were found. *)
Definition phrases st : list (pyseq A) := dict_keys (sub_strings st).

Record parse_inv sequence st : Prop := ParseInv {
  inv_inc : 1 ≤ inc st;
  inv_bound : ind st + inc st ≤ S (len sequence);
  inv_covered :
    concat (items <$> phrases st) = take (ind st) (items sequence);
  inv_NoDup : NoDup (phrases st);
  inv_kind : ∀ p, p ∈ phrases st → kind p = kind sequence;
  inv_seen : ∀ j,
    0 < j < inc st →
    slice sequence (ind st) (ind st + j) ∈ phrases st;
  inv_prefixes : ∀ i p j,
    phrases st !! i = Some p →
    0 < j < length (items p) →
    ∃ i', i' < i ∧
      phrases st !! i' = Some (PySeq (kind p) (take j (items p)))
}.

Lemma parse_inv_initial sequence : parse_inv sequence initial.
Proof.
  split; simpl; try done; try lia.
  - apply NoDup_nil_2.
  - by intros p ?%elem_of_nil.
Qed.

Lemma parse_inv_body sequence st st' :
  parse_inv sequence st →
  decomposition_body sequence st = Ok (Continue st') →
  parse_inv sequence st'.
Proof.
  intros [Hinc Hbound Hcov Hnd Hkind Hseen Hpre] Hbody.
  revert Hbody.
  destruct (decomposition_body_spec sequence st) as [| |Hle _ Hin|Hle _ Hnotin];
    intros Hbody; try done; injection Hbody as <-.
  - (* the candidate is known: it grows *)
    split; simpl; unfold phrases in *; simpl; try done; try lia.
    intros j Hj. destruct (decide (j = inc st)) as [->|]; [done|].
    apply Hseen. lia.
  - (* the candidate is new: it becomes a phrase *)
    set (sub_str := slice sequence (ind st) (ind st + inc st)) in *.
    assert (phrases (State (sub_strings st ++ [(sub_str, 0)])
              (ind st + inc st) 1) = phrases st ++ [sub_str]) as Hphrases.
    { unfold phrases, dict_keys. simpl. by rewrite fmap_app. }
    split; rewrite ?Hphrases; simpl; try lia.
    + rewrite fmap_app, concat_app, Hcov. simpl. rewrite app_nil_r.
      replace (ind st + inc st - ind st) with (inc st) by lia.
      apply take_take_drop.
    + apply NoDup_app. split_and!; [done| |apply NoDup_singleton].
      intros x Hx Hx'%list_elem_of_singleton. by rewrite Hx' in Hx.
    + intros p [Hp|Hp%list_elem_of_singleton]%elem_of_app; [by apply Hkind|].
      by rewrite Hp.
    + intros i p j Hi Hj.
      apply lookup_app_Some in Hi as [Hi|[Hge Hi]].
      * destruct (Hpre i p j Hi Hj) as (i' & Hlt & Hi').
        exists i'. split; [done|]. by apply lookup_app_l_Some.
      * apply list_lookup_singleton_Some in Hi as [Hi0 <-].
        assert (j < inc st) as Hjinc.
        { simpl in Hj. rewrite length_take in Hj. lia. }
        assert (PySeq (kind sub_str) (take j (items sub_str))
                = slice sequence (ind st) (ind st + j)) as ->.
        { unfold sub_str, slice. simpl. f_equal.
          rewrite take_take.
          replace (ind st + inc st - ind st) with (inc st) by lia.
          replace (ind st + j - ind st) with j by lia.
          f_equal. lia. }
        destruct (list_elem_of_lookup_1 (phrases st)
                    (slice sequence (ind st) (ind st + j))) as [i' Hi'].
        { apply Hseen. lia. }
        exists i'. split.
        -- apply lookup_lt_Some in Hi'. lia.
        -- by apply lookup_app_l_Some.
Qed.

(** A hashable sequence never makes the body raise. *)
Lemma decomposition_body_hashable sequence st e :
  hashable sequence = true → decomposition_body sequence st ≠ Raise e.
Proof.
  intros Hhash.
  destruct (decomposition_body_spec sequence st); try done. congruence.
Qed.

(** The state at the [break] of the loop of a hashable sequence. *)
Lemma decomposition_loop_hashable sequence :
  hashable sequence = true →
  ∃ st, decomposition_loop sequence initial = Ok st
        ∧ parse_inv sequence st
        ∧ ind st + inc st = S (len sequence).
Proof.
  intros Hhash.
  pose proof (decomposition_loop_rule sequence (parse_inv sequence)
                (parse_inv_body sequence) initial
                (parse_inv_initial sequence)) as Hrule.
  destruct (decomposition_loop sequence initial) as [st|e].
  - destruct Hrule as [Hinv Hbreak]. exists st. split_and!; [done..|].
    pose proof (inv_bound _ _ Hinv). revert Hbreak.
    destruct (decomposition_body_spec sequence st); try done. lia.
  - destruct Hrule as (st & _ & Hraise).
    by apply decomposition_body_hashable in Hraise.
Qed.

(** Whenever the loop ends with a [break], the invariant holds there. *)
Lemma decomposition_loop_Ok sequence st :
  decomposition_loop sequence initial = Ok st →
  parse_inv sequence st ∧ ind st + inc st = S (len sequence).
Proof.
  intros Hloop.
  pose proof (decomposition_loop_rule sequence (parse_inv sequence)
                (parse_inv_body sequence) initial
                (parse_inv_initial sequence)) as Hrule.
  rewrite Hloop in Hrule. destruct Hrule as [Hinv Hbreak].
  split; [done|]. pose proof (inv_bound _ _ Hinv). revert Hbreak.
  destruct (decomposition_body_spec sequence st); try done. lia.
Qed.
End Invariant.

(** ** The entry points *)

Section EntryPoints.
Context {A : Type} `{EqDecision A}.
Implicit Types (sequence : pyseq A) (st : state A).

Lemma lempel_ziv_decomposition_Ok sequence ps :
  lempel_ziv_decomposition sequence = Ok ps →
  ∃ st, decomposition_loop sequence initial = Ok st
        ∧ ps = phrases st
        ∧ parse_inv sequence st
        ∧ ind st + inc st = S (len sequence).
Proof.
  unfold lempel_ziv_decomposition.
  destruct (decomposition_loop sequence initial) as [st|e] eqn:Hloop;
    simpl; [|done].
  intros [= <-]. exists st.
  destruct (decomposition_loop_Ok sequence st Hloop). by split_and!.
Qed.

(** Phrases of one kind that differ differ by content. *)
Lemma NoDup_items (k : seq_kind) (ps : list (pyseq A)) :
  (∀ p, p ∈ ps → kind p = k) → NoDup ps → NoDup (items <$> ps).
Proof.
  intros Hkind. apply NoDup_fmap_2_strong.
  intros [k1 l1] [k2 l2] H1%Hkind H2%Hkind Hitems. simpl in *. congruence.
Qed.


(** On a non-empty list both functions raise, in the first run of the
    body. *)
Lemma unhashable_sequence_raises sequence :
  hashable sequence = false →
  items sequence ≠ [] →
  lempel_ziv_decomposition sequence = Raise TypeError
  ∧ lempel_ziv_complexity_slow sequence = Raise TypeError.
Proof.
  intros Hhash Hne.
  assert (decomposition_loop sequence initial = Raise TypeError) as Hloop.
  { rewrite decomposition_loop_eq.
    destruct (decomposition_body_spec sequence initial) as [Hgt| | |];
      try congruence.
    simpl in Hgt. unfold len in Hgt.
    destruct (items sequence); simpl in *; [done|lia]. }
  unfold lempel_ziv_decomposition, lempel_ziv_complexity_slow.
  by rewrite complexity_loop_decomposition_loop, Hloop.
Qed.
End EntryPoints.

(** ** Properties of the parse *)

Section Properties.
Context {A : Type} `{EqDecision A}.
Implicit Types (sequence : pyseq A) (st : state A).

(** C1: the loops of the two functions compute the same state from
    every state, and [lempel_ziv_complexity_slow(sequence)] is
    [len(lempel_ziv_decomposition(sequence))] (the same exception where
    the decomposition raises). *)
Theorem complexity_is_decomposition_length sequence :
  (∀ st, complexity_loop sequence st = decomposition_loop sequence st)
  ∧ lempel_ziv_complexity_slow sequence
    = length <$> lempel_ziv_decomposition sequence.
Proof.
  split; [apply complexity_loop_decomposition_loop|].
  unfold lempel_ziv_decomposition, lempel_ziv_complexity_slow.
  rewrite complexity_loop_decomposition_loop.
  destruct (decomposition_loop sequence initial) as [st|e]; simpl; [|done].
  by rewrite dict_len_keys.
Qed.

(** C2: the phrases returned by [lempel_ziv_decomposition], put
    together in order, are the first [ind] symbols of the sequence,
    [ind] being the cursor at the [break]; so they are a prefix of the
    sequence, and the whole sequence exactly when the cursor is at the
    end, which is when no candidate is being grown ([inc = 1]). *)
Theorem decomposition_concat_prefix sequence ps :
  lempel_ziv_decomposition sequence = Ok ps →
  ∃ st, decomposition_loop sequence initial = Ok st
        ∧ concat (items <$> ps) = take (ind st) (items sequence)
        ∧ concat (items <$> ps) `prefix_of` items sequence
        ∧ (concat (items <$> ps) = items sequence ↔ ind st = len sequence)
        ∧ (ind st = len sequence ↔ inc st = 1).
Proof.
  intros (st & Hloop & -> & Hinv & Hexit)%lempel_ziv_decomposition_Ok.
  destruct Hinv as [Hinc Hbound Hcov _ _ _ _].
  exists st. rewrite Hcov. split_and!; [done|done|apply prefix_take| |lia].
  split.
  - intros Htake. apply (f_equal length) in Htake.
    rewrite length_take in Htake. unfold len in *. lia.
  - intros ->. by apply take_ge.
Qed.

(** C3: a run of the body adds a phrase only when the candidate is not
    yet a key of the dict, and no two phrases returned by
    [lempel_ziv_decomposition] are equal, as values and by content. *)
Theorem decomposition_phrases_distinct sequence :
  (∀ st st', decomposition_body sequence st = Ok (Continue st') →
     let sub_str := slice sequence (ind st) (ind st + inc st) in
     (sub_str ∈ phrases st ∧ phrases st' = phrases st)
     ∨ ((sub_str ∉ phrases st) ∧ phrases st' = phrases st ++ [sub_str]))
  ∧ (∀ ps, lempel_ziv_decomposition sequence = Ok ps →
       NoDup ps ∧ NoDup (items <$> ps)).
Proof.
  split.
  - intros st st'.
    destruct (decomposition_body_spec sequence st) as [| |? ? Hin|? ? Hnotin];
      try done; intros [= <-]; simpl; [by left|right].
    split; [done|]. unfold phrases, dict_keys. simpl. by rewrite fmap_app.
  - intros ps (st & Hloop & -> & Hinv & Hexit)%lempel_ziv_decomposition_Ok.
    destruct Hinv as [_ _ _ Hnd Hkind _ _].
    split; [done|]. by apply (NoDup_items (kind sequence)).
Qed.

(** C9: when symbols are left after the returned phrases, these
    symbols are, all together, one of the returned phrases. *)
Theorem dropped_tail_is_phrase sequence ps :
  lempel_ziv_decomposition sequence = Ok ps →
  let tail := drop (length (concat (items <$> ps))) (items sequence) in
  items sequence = concat (items <$> ps) ++ tail
  ∧ (tail ≠ [] → PySeq (kind sequence) tail ∈ ps ∧ tail ∈ items <$> ps).
Proof.
  intros (st & Hloop & -> & Hinv & Hexit)%lempel_ziv_decomposition_Ok.
  destruct Hinv as [Hinc Hbound Hcov _ _ Hseen _].
  simpl. rewrite Hcov, length_take.
  assert (ind st ≤ len sequence) as Hind by lia.
  unfold len in *. rewrite Nat.min_l by done.
  split; [by rewrite take_drop|].
  intros Htail.
  assert (ind st < length (items sequence)) as Hlt.
  { destruct (decide (ind st < length (items sequence))); [done|].
    destruct Htail. apply drop_ge. lia. }
  assert (PySeq (kind sequence) (drop (ind st) (items sequence)) ∈ phrases st)
    as Hin.
  { replace (PySeq (kind sequence) (drop (ind st) (items sequence)))
      with (slice sequence (ind st) (ind st + (inc st - 1))).
    - apply Hseen. lia.
    - unfold slice. f_equal. apply take_ge. rewrite length_drop. lia. }
  split; [done|].
  by apply (list_elem_of_fmap_2 items) in Hin.
Qed.

(** C10: every non-empty proper prefix of a returned phrase is a phrase
    that stands before it in the returned list. *)
Theorem phrase_prefixes_earlier sequence ps before p after j :
  lempel_ziv_decomposition sequence = Ok ps →
  ps = before ++ p :: after →
  0 < j < length (items p) →
  PySeq (kind p) (take j (items p)) ∈ before.
Proof.
  intros (st & Hloop & -> & Hinv & Hexit)%lempel_ziv_decomposition_Ok Hps Hj.
  destruct Hinv as [_ _ _ _ _ _ Hpre].
  destruct (Hpre (length before) p j) as (i' & Hlt & Hi'); [|done|].
  { rewrite Hps. by apply list_lookup_middle. }
  rewrite Hps, lookup_app_l in Hi' by done.
  by eapply list_elem_of_lookup_2.
Qed.
(** C6: on the empty sequence, of any kind, [lempel_ziv_decomposition]
    returns the empty list and [lempel_ziv_complexity_slow] returns 0. *)
Theorem empty_sequence (k : seq_kind) :
  lempel_ziv_decomposition (PySeq k (@nil A)) = Ok []
  ∧ lempel_ziv_complexity_slow (PySeq k (@nil A)) = Ok 0.
Proof.
  unfold lempel_ziv_decomposition, lempel_ziv_complexity_slow.
  rewrite complexity_loop_eq, decomposition_loop_eq. by split.
Qed.

(** C7: the body breaks exactly when [ind + inc > len(sequence)];
    every other run that does not raise adds one to [ind + inc], which
    stays at most [len(sequence) + 1]; so, in both functions, the loop
    is over within [len(sequence) + 1] runs of the body, and at a
    [break] [ind + inc] is [len(sequence) + 1]. *)
Theorem parse_loop_terminates sequence :
  (∀ st, decomposition_body sequence st = Ok Break
         ↔ ind st + inc st > len sequence)
  ∧ (∀ st st', decomposition_body sequence st = Ok (Continue st') →
       ind st' + inc st' = S (ind st + inc st)
       ∧ ind st' + inc st' ≤ S (len sequence))
  ∧ (∀ st, complexity_body sequence st = decomposition_body sequence st)
  ∧ (∀ fuel, len sequence < fuel →
       unroll (decomposition_body sequence) fuel initial
       = Some (decomposition_loop sequence initial)
       ∧ unroll (complexity_body sequence) fuel initial
         = Some (complexity_loop sequence initial))
  ∧ (∀ st, decomposition_loop sequence initial = Ok st →
       ind st + inc st = S (len sequence)).
Proof.
  split_and!.
  - intros st.
    destruct (decomposition_body_spec sequence st); split; try done; lia.
  - intros st st'.
    destruct (decomposition_body_spec sequence st);
      try done; intros [= <-]; simpl; lia.
  - apply complexity_body_eq.
  - intros fuel Hfuel.
    assert (remaining sequence initial < fuel) as Hlt.
    { unfold remaining. simpl. lia. }
    split.
    + by apply unroll_decomposition_loop.
    + rewrite complexity_loop_decomposition_loop.
      by apply unroll_decomposition_loop.
  - intros st Hloop. by apply decomposition_loop_Ok.
Qed.
End Properties.

(** ** The documented inputs *)

(** C4: on ['1001111011000010'] the complexity is 8 and the
    decomposition is 1 / 0 / 01 / 11 / 10 / 110 / 00 / 010. *)
Theorem doctest_1001111011000010 :
  lempel_ziv_complexity_slow (str "1001111011000010") = Ok 8
  ∧ lempel_ziv_decomposition (str "1001111011000010")
    = Ok [str "1"; str "0"; str "01"; str "11"; str "10"; str "110";
          str "00"; str "010"].
Proof. split; vm_compute; reflexivity. Qed.

(** C5: on ['0000'] the complexity is 2 and the decomposition is
    0 / 00; the loop breaks with [ind = 3] and [inc = 2], the candidate
    ['0'] at index 3 having been found in the dict, so the last symbol is
    in no phrase and is not counted. *)
Theorem all_identical_0000 :
  lempel_ziv_complexity_slow (str "0000") = Ok 2
  ∧ lempel_ziv_decomposition (str "0000") = Ok [str "0"; str "00"]
  ∧ decomposition_loop (str "0000") initial
    = Ok (State [(str "0", 0); (str "00", 0)] 3 2)
  ∧ slice (str "0000") 3 4 = str "0"
  ∧ 3 + 2 > len (str "0000")
  ∧ concat (items <$> [str "0"; str "00"]) = items (str "000").
Proof. split_and!; vm_compute; solve [reflexivity | lia]. Qed.

(** C8, at a list: on [[0, 1]] both functions raise TypeError, because
    the slice [[0]] is a list and a list is not hashable. *)
Theorem list_sequence_raises :
  lempel_ziv_decomposition (PySeq PyList [0; 1]) = Raise TypeError
  ∧ lempel_ziv_complexity_slow (PySeq PyList [0; 1]) = Raise TypeError.
Proof. split; vm_compute; reflexivity. Qed.

(** ** Instances of the properties on the documented inputs *)

Lemma decomposition_0000 :
  lempel_ziv_decomposition (str "0000") = Ok [str "0"; str "00"].
Proof. vm_compute. reflexivity. Defined.

Lemma decomposition_concat_prefix_witness :
  lempel_ziv_decomposition (str "0000") = Ok [str "0"; str "00"]
  ∧ ∃ st, decomposition_loop (str "0000") initial = Ok st
          ∧ concat (items <$> [str "0"; str "00"])
            = take (ind st) (items (str "0000"))
          ∧ concat (items <$> [str "0"; str "00"]) `prefix_of` items (str "0000")
          ∧ (concat (items <$> [str "0"; str "00"]) = items (str "0000")
             ↔ ind st = len (str "0000"))
          ∧ (ind st = len (str "0000") ↔ inc st = 1).
Proof.
  split; [exact decomposition_0000|].
  apply (decomposition_concat_prefix (str "0000") [str "0"; str "00"]).
  vm_compute. reflexivity.
Defined.

Lemma decomposition_phrases_distinct_witness :
  lempel_ziv_decomposition (str "0000") = Ok [str "0"; str "00"]
  ∧ NoDup [str "0"; str "00"]
  ∧ NoDup (items <$> [str "0"; str "00"]).
Proof.
  split; [exact decomposition_0000|].
  apply (proj2 (decomposition_phrases_distinct (str "0000"))
           [str "0"; str "00"]).
  vm_compute. reflexivity.
Defined.

Lemma dropped_tail_is_phrase_witness :
  lempel_ziv_decomposition (str "0000") = Ok [str "0"; str "00"]
  ∧ drop 3 (items (str "0000")) ≠ []
  ∧ str "0" ∈ [str "0"; str "00"].
Proof.
  split; [exact decomposition_0000|].
  assert (drop 3 (items (str "0000")) ≠ []) as Htail by (vm_compute; discriminate).
  split; [exact Htail|].
  exact (proj1 (proj2 (dropped_tail_is_phrase (str "0000") [str "0"; str "00"]
                         decomposition_0000) Htail)).
Defined.

Lemma phrase_prefixes_earlier_witness :
  lempel_ziv_decomposition (str "1001111011000010")
  = Ok ([str "1"; str "0"; str "01"; str "11"; str "10"]
        ++ str "110" :: [str "00"; str "010"])
  ∧ 0 < 2 < length (items (str "110"))
  ∧ str "11" ∈ [str "1"; str "0"; str "01"; str "11"; str "10"].
Proof.
  assert (0 < 2 < length (items (str "110"))) as Hj by (vm_compute; lia).
  split; [vm_compute; reflexivity|]. split; [exact Hj|].
  apply (phrase_prefixes_earlier (str "1001111011000010")
           ([str "1"; str "0"; str "01"; str "11"; str "10"]
            ++ str "110" :: [str "00"; str "010"])
           [str "1"; str "0"; str "01"; str "11"; str "10"]
           (str "110") [str "00"; str "010"] 2);
    [vm_compute; reflexivity|reflexivity|exact Hj].
Defined.

Lemma parse_loop_terminates_witness :
  len (str "0000") < 5
  ∧ unroll (decomposition_body (str "0000")) 5 initial
    = Some (decomposition_loop (str "0000") initial)
  ∧ unroll (complexity_body (str "0000")) 5 initial
    = Some (complexity_loop (str "0000") initial).
Proof.
  assert (len (str "0000") < 5) as Hfuel by (vm_compute; lia).
  split; [exact Hfuel|].
  exact (proj1 (proj2 (proj2 (proj2 (parse_loop_terminates (str "0000")))))
           5 Hfuel).
Defined.

(** ** Further properties: what the functions return and when *)

Section Returns.
Context {A : Type} `{EqDecision A}.
Implicit Types (sequence : pyseq A) (st : state A).


(** Where the loop is and what it has found so far. *)
Record parse_inv_length sequence st : Prop := ParseInvLength {
  inv_nonempty : ∀ p, p ∈ phrases st → 0 < len p;
  inv_start : ind st ≤ len sequence
}.

Lemma parse_inv_length_body sequence st st' :
  parse_inv sequence st ∧ parse_inv_length sequence st →
  decomposition_body sequence st = Ok (Continue st') →
  parse_inv sequence st' ∧ parse_inv_length sequence st'.
Proof.
  intros [Hinv [Hnonempty Hstart]] Hbody.
  split; [by eapply parse_inv_body|].
  pose proof (inv_inc _ _ Hinv) as Hinc. revert Hbody.
  destruct (decomposition_body_spec sequence st) as [| |Hle _ Hin|Hle _ Hnotin];
    intros Hbody; try done; injection Hbody as <-.
  - by split.
  - split; simpl; [|done].
    intros p. unfold phrases, dict_keys. simpl. rewrite fmap_app.
    intros [Hp|Hp%list_elem_of_singleton]%elem_of_app; [by apply Hnonempty|].
    subst p. unfold len, slice. simpl.
    rewrite length_take, length_drop. unfold len in *. lia.
Qed.

Lemma decomposition_loop_Ok_length sequence st :
  decomposition_loop sequence initial = Ok st →
  parse_inv_length sequence st.
Proof.
  intros Hloop.
  pose proof (decomposition_loop_rule sequence
                (λ st, parse_inv sequence st ∧ parse_inv_length sequence st)
                (parse_inv_length_body sequence) initial) as Hrule.
  rewrite Hloop in Hrule. apply Hrule. split; [apply parse_inv_initial|].
  split; simpl; [|lia]. by intros p ?%elem_of_nil.
Qed.

(** A list of non-empty lists has at most as many members as symbols. *)
Lemma length_concat_nonempty (ls : list (list A)) :
  (∀ l, l ∈ ls → 0 < length l) → length ls ≤ length (concat ls).
Proof.
  induction ls as [|l ls IH]; simpl; [lia|].
  intros Hall. rewrite length_app.
  pose proof (Hall l (list_elem_of_here _ _)).
  assert (length ls ≤ length (concat ls)) as Hrest; [|lia].
  apply IH. intros l' Hl'. apply Hall. by apply list_elem_of_further.
Qed.

(** The middle of three lists that make a prefix of [l]. *)
Lemma middle_of_take (l l1 l2 l3 : list A) n :
  l1 ++ l2 ++ l3 = take n l →
  l2 = take (length l2) (drop (length l1) l)
  ∧ length l1 + length l2 ≤ length l.
Proof.
  intros Htake. split.
  - rewrite <-(take_drop n l), <-Htake, <-!(assoc_L (++)).
    by rewrite drop_app_length, take_app_length.
  - apply (f_equal length) in Htake.
    rewrite !length_app, length_take in Htake. lia.
Qed.

(** X3: every returned phrase is a non-empty slice of the sequence that
    starts where the phrases before it end: the phrases are cut out of
    the sequence one after the other, without a gap or an overlap, and
    none is empty. *)
Theorem phrase_is_slice sequence ps before p after :
  lempel_ziv_decomposition sequence = Ok ps →
  ps = before ++ p :: after →
  let start := length (concat (items <$> before)) in
  p = slice sequence start (start + len p)
  ∧ 0 < len p
  ∧ start + len p ≤ len sequence.
Proof.
  intros (st & Hloop & -> & Hinv & Hexit)%lempel_ziv_decomposition_Ok Hps.
  pose proof (decomposition_loop_Ok_length sequence st Hloop)
    as [Hnonempty _].
  pose proof (inv_covered _ _ Hinv) as Hcov.
  rewrite Hps, fmap_app, fmap_cons, concat_app, concat_cons in Hcov.
  apply middle_of_take in Hcov as [Hitems Hlen].
  simpl. split_and!.
  - destruct p as [k l]. unfold slice, len in *. simpl in *.
    f_equal.
    + apply (inv_kind _ _ Hinv (PySeq k l)). rewrite Hps. apply elem_of_app. right. apply list_elem_of_here.
    + rewrite Hitems at 1. f_equal. lia.
  - apply Hnonempty. rewrite Hps. apply elem_of_app. right. apply list_elem_of_here.
  - done.
Qed.

(** X4: the complexity is at most the number of symbols, it is 0 only for
    the empty sequence, and the first phrase of a non-empty sequence is
    its first symbol. *)
Theorem complexity_bounds sequence ps :
  lempel_ziv_decomposition sequence = Ok ps →
  length ps ≤ len sequence
  ∧ (ps = [] ↔ items sequence = [])
  ∧ (items sequence ≠ [] → ps !! 0 = Some (slice sequence 0 1)).
Proof.
  intros (st & Hloop & -> & Hinv & Hexit)%lempel_ziv_decomposition_Ok.
  pose proof (decomposition_loop_Ok_length sequence st Hloop)
    as [Hnonempty Hstart].
  destruct Hinv as [Hinc Hbound Hcov _ Hkind Hseen Hpre].
  assert (length (phrases st) ≤ ind st) as Hcount.
  { transitivity (length (concat (items <$> phrases st))).
    - rewrite <-(length_fmap items). apply length_concat_nonempty.
      intros l (p & -> & Hp)%list_elem_of_fmap. by apply Hnonempty.
    - rewrite Hcov, length_take. lia. }
  assert (items sequence ≠ [] → phrases st !! 0 = Some (slice sequence 0 1))
    as Hfirst.
  { intros Hne.
    assert (0 < len sequence) as Hpos.
    { unfold len. destruct (items sequence); simpl; [done|lia]. }
    destruct (phrases st) as [|p ps] eqn:Hps.
    - (* no phrase: the candidate at index 0 would have been found *)
      simpl in Hcov. symmetry in Hcov. apply (f_equal length) in Hcov.
      rewrite length_take in Hcov. simpl in Hcov.
      assert (ind st = 0) as Hind by (unfold len in *; lia).
      assert (slice sequence (ind st) (ind st + 1) ∈ []) as Hin
        by (apply Hseen; lia).
      rewrite Hind in Hin. by apply elem_of_nil in Hin.
    - (* the first phrase has no proper prefix before it *)
      simpl. f_equal.
      assert (len p = 1) as Hlen.
      { pose proof (Hnonempty p (list_elem_of_here _ _)).
        destruct (decide (len p = 1)); [done|].
        destruct (Hpre 0 p 1) as (i' & Hlt & _); [done|unfold len in *; lia|lia]. }
      assert (concat (items <$> p :: ps) = take (ind st) (items sequence))
        as Hcov' by done.
      rewrite fmap_cons, concat_cons in Hcov'.
      apply (middle_of_take _ []) in Hcov' as [Hitems _].
      destruct p as [k l]. unfold slice, len in *. simpl in *. f_equal.
      + apply (Hkind (PySeq k l)). apply list_elem_of_here.
      + by rewrite Hitems, Hlen. }
  split_and!; [lia| |done].
  split.
  - intros Hnil. destruct (decide (items sequence = [])) as [|Hne]; [done|].
    apply Hfirst in Hne. by rewrite Hnil in Hne.
  - intros Hnil. unfold len in *. rewrite Hnil in Hstart. simpl in Hstart.
    destruct (phrases st); [done|]. simpl in Hcount. lia.
Qed.
(** A phrase all of whose shorter prefixes stand before it has at most
    one symbol more than there are phrases before it. *)
Lemma prefixes_before_length (ps : list (pyseq A)) i p :
  (∀ j, 0 < j < len p →
     ∃ i', i' < i ∧ ps !! i' = Some (PySeq (kind p) (take j (items p)))) →
  len p ≤ S i.
Proof.
  intros Hpre.
  set (prefixes := (λ j, PySeq (kind p) (take j (items p))) <$> seq 1 (len p - 1)).
  assert (length prefixes ≤ length (take i ps)) as Hle.
  { apply submseteq_length, NoDup_submseteq.
    - apply NoDup_fmap_2_strong; [|apply NoDup_seq].
      intros j1 j2 Hj1%elem_of_seq Hj2%elem_of_seq [= Htake].
      apply (f_equal length) in Htake. rewrite !length_take in Htake.
      unfold len in *. lia.
    - intros q (j & -> & Hj%elem_of_seq)%list_elem_of_fmap.
      destruct (Hpre j) as (i' & Hlt & Hi'); [lia|].
      apply elem_of_take. eauto. }
  unfold prefixes in Hle.
  rewrite length_fmap, length_seq, length_take in Hle. lia.
Qed.

(** Phrases whose lengths are at most 1, 2, 3, ... have at most
    [k (k + 1) / 2] symbols together. *)
Lemma length_concat_triangle (ps : list (pyseq A)) :
  (∀ i p, ps !! i = Some p → len p ≤ S i) →
  2 * length (concat (items <$> ps)) ≤ length ps * S (length ps).
Proof.
  induction ps as [|p ps IH] using rev_ind; simpl; [lia|].
  intros Hlen.
  rewrite fmap_app, concat_app, !length_app. simpl. rewrite app_nil_r.
  assert (len p ≤ S (length ps)) as Hp.
  { apply Hlen. by apply list_lookup_middle. }
  assert (2 * length (concat (items <$> ps)) ≤ length ps * S (length ps))
    as Hps.
  { apply IH. intros i q Hi. apply Hlen. by apply lookup_app_l_Some. }
  unfold len in Hp. nia.
Qed.

(** X5: the phrase at index [i] of the returned list (counted from 0)
    has at most [i + 1] symbols. *)
Theorem phrase_length_le_index sequence ps i p :
  lempel_ziv_decomposition sequence = Ok ps →
  ps !! i = Some p →
  len p ≤ S i.
Proof.
  intros (st & Hloop & -> & Hinv & Hexit)%lempel_ziv_decomposition_Ok Hi.
  apply (prefixes_before_length (phrases st)).
  intros j Hj. by apply (inv_prefixes _ _ Hinv).
Qed.

(** X6: a sequence of [n] symbols has a complexity [c] with
    [2 n <= c (c + 3)]: the phrases have at most [c (c + 1) / 2] symbols
    together and at most [c] symbols are left after them. *)
Theorem complexity_lower_bound sequence ps :
  lempel_ziv_decomposition sequence = Ok ps →
  2 * length (concat (items <$> ps)) ≤ length ps * (length ps + 1)
  ∧ len sequence - length (concat (items <$> ps)) ≤ length ps
  ∧ 2 * len sequence ≤ length ps * (length ps + 3).
Proof.
  intros (st & Hloop & -> & Hinv & Hexit)%lempel_ziv_decomposition_Ok.
  assert (∀ i p, phrases st !! i = Some p → len p ≤ S i) as Hlen.
  { intros i p Hi. apply (prefixes_before_length (phrases st)).
    intros j Hj. by apply (inv_prefixes _ _ Hinv). }
  pose proof (length_concat_triangle _ Hlen) as Htriangle.
  destruct Hinv as [Hinc Hbound Hcov _ _ Hseen _].
  assert (length (concat (items <$> phrases st)) = ind st) as Hcovered.
  { rewrite Hcov, length_take. unfold len in *. lia. }
  assert (len sequence - ind st ≤ length (phrases st)) as Htail.
  { destruct (decide (inc st = 1)) as [|Hgrown]; [lia|].
    destruct (list_elem_of_lookup_1 (phrases st)
                (slice sequence (ind st) (ind st + (inc st - 1))))
      as [i Hi]; [apply Hseen; lia|].
    pose proof (Hlen _ _ Hi) as Hle. apply lookup_lt_Some in Hi.
    unfold len, slice in Hle. simpl in Hle.
    rewrite length_take, length_drop in Hle. unfold len in *. lia. }
  rewrite Hcovered. split_and!; [lia|done|nia].
Qed.
End Returns.

(** ** Further properties: a longer sequence *)

Section Extension.
Context {A : Type} `{EqDecision A}.
Implicit Types (sequence : pyseq A) (st : state A) (more : list A).

(** [sequence] with the symbols [more] after it. *)
Definition extended sequence more : pyseq A :=
  PySeq (kind sequence) (items sequence ++ more).

(** As long as the candidate lies within [sequence], the body does on
    the longer sequence what it does on [sequence]. *)
Lemma decomposition_body_extended sequence more st :
  ind st + inc st ≤ len sequence →
  decomposition_body (extended sequence more) st
  = decomposition_body sequence st.
Proof.
  intros Hle. unfold decomposition_body.
  assert (len sequence ≤ len (extended sequence more)) as Hlen.
  { unfold len, extended. simpl. rewrite length_app. lia. }
  rewrite !decide_False by lia.
  assert (slice (extended sequence more) (ind st) (ind st + inc st)
          = slice sequence (ind st) (ind st + inc st)) as ->; [|done].
  unfold slice, extended, len in *. simpl. f_equal.
  rewrite drop_app_le by lia. apply take_app_le.
  rewrite length_drop. lia.
Qed.

Lemma decomposition_loop_extended sequence more st st1 :
  decomposition_loop sequence st = Ok st1 →
  decomposition_loop (extended sequence more) st
  = decomposition_loop (extended sequence more) st1.
Proof.
  induction st as [st IH] using (remaining_ind sequence).
  intros Hloop. rewrite decomposition_loop_eq in Hloop.
  destruct (decomposition_body sequence st) as [[|st']|e] eqn:Hbody;
    [by injection Hloop as <-| |done].
  assert (ind st + inc st ≤ len sequence) as Hle.
  { apply decomposition_body_slice. by rewrite Hbody. }
  rewrite (decomposition_loop_eq (extended sequence more) st).
  rewrite decomposition_body_extended, Hbody by done.
  apply IH; [by apply decomposition_body_remaining|done].
Qed.

(** The loop only adds phrases, at the end. *)
Lemma decomposition_loop_phrases sequence st st1 :
  decomposition_loop sequence st = Ok st1 →
  phrases st `prefix_of` phrases st1.
Proof.
  induction st as [st IH] using (remaining_ind sequence).
  intros Hloop. rewrite decomposition_loop_eq in Hloop.
  pose proof (decomposition_body_spec sequence st) as Hspec.
  destruct (decomposition_body sequence st) as [[|st']|e] eqn:Hbody;
    [by injection Hloop as <-| |done].
  transitivity (phrases st').
  - inversion Hspec; subst; unfold phrases, dict_keys; simpl; [done|].
    rewrite fmap_app. by apply prefix_app_r.
  - apply IH; [by apply decomposition_body_remaining|done].
Qed.

End Extension.

(** ** Further properties: other symbols, another container *)


(** The symbols of [sequence] in a container of kind [k]: [tuple(s)],
    [list(s)], [''.join(s)]. *)
Definition retag {A} (k : seq_kind) (sequence : pyseq A) : pyseq A :=
  PySeq k (items sequence).

(** The state with [g] applied to each key of the dict. *)
Definition map_state {A B} (g : pyseq A → pyseq B) (st : state A) : state B :=
  State (prod_map g id <$> sub_strings st) (ind st) (inc st).

Section BodyUnique.
Context {A : Type} `{EqDecision A}.

Lemma body_spec_unique (sequence : pyseq A) st r :
  body_spec sequence st r → decomposition_body sequence st = r.
Proof.
  intros Hr. pose proof (decomposition_body_spec sequence st) as Hbody.
  destruct Hr; inversion Hbody; try done; try lia; congruence.
Qed.
End BodyUnique.

Section Simulation.
Context {A B : Type} `{EqDecision A} `{EqDecision B}.
Variables (g : pyseq A → pyseq B) (sequence : pyseq A) (image : pyseq B).
Hypothesis image_len : len image = len sequence.
Hypothesis image_hashable : hashable image = hashable sequence.
Hypothesis image_slice : ∀ i j, slice image i j = g (slice sequence i j).
Hypothesis g_inj : ∀ p q,
  kind p = kind sequence → kind q = kind sequence → g p = g q → p = q.

(** All phrases found so far are of the kind of the sequence. *)
Definition same_kind (st : state A) : Prop :=
  ∀ p, p ∈ phrases st → kind p = kind sequence.

Lemma phrases_map_state st : phrases (map_state g st) = g <$> phrases st.
Proof.
  unfold phrases, dict_keys, map_state. simpl.
  rewrite <-!list_fmap_compose. by apply list_fmap_ext; intros ? [].
Qed.

Lemma same_kind_body st st' :
  same_kind st →
  decomposition_body sequence st = Ok (Continue st') →
  same_kind st'.
Proof.
  intros Hkind.
  destruct (decomposition_body_spec sequence st); try done;
    intros [= <-]; [done|].
  intros p. unfold phrases, dict_keys. simpl. rewrite fmap_app.
  intros [Hp|Hp%list_elem_of_singleton]%elem_of_app; [by apply Hkind|].
  by subst p.
Qed.

(** The body on the image does what the body does on the sequence. *)
Lemma decomposition_body_image st :
  same_kind st →
  decomposition_body image (map_state g st)
  = match decomposition_body sequence st with
    | Ok Break => Ok Break
    | Ok (Continue st') => Ok (Continue (map_state g st'))
    | Raise e => Raise e
    end.
Proof using All.
  intros Hkind. apply body_spec_unique.
  destruct (decomposition_body_spec sequence st) as [Hgt|Hle Hh|Hle Hh Hin|Hle Hh Hnotin].
  - apply body_break. simpl. lia.
  - apply body_unhashable; simpl; [lia|congruence].
  - replace (map_state g (State (sub_strings st) (ind st) (inc st + 1)))
      with (State (sub_strings (map_state g st)) (ind (map_state g st))
              (inc (map_state g st) + 1)) by done.
    apply body_grow; [simpl; lia|congruence|].
    change (dict_keys (sub_strings (map_state g st)))
      with (phrases (map_state g st)).
    rewrite phrases_map_state, image_slice. simpl.
    by apply list_elem_of_fmap_2.
  - replace (map_state g (State (sub_strings st ++ _) (ind st + inc st) 1))
      with (State (sub_strings (map_state g st)
                   ++ [(slice image (ind (map_state g st))
                          (ind (map_state g st) + inc (map_state g st)), 0)])
              (ind (map_state g st) + inc (map_state g st)) 1).
    + apply body_novel; [simpl; lia|congruence|].
      change (dict_keys (sub_strings (map_state g st)))
        with (phrases (map_state g st)).
      rewrite phrases_map_state, image_slice. simpl.
      intros (p & Heq & Hp)%list_elem_of_fmap. apply Hnotin.
      apply g_inj in Heq; [by subst p|done|by apply Hkind].
    + unfold map_state. simpl. rewrite fmap_app, image_slice. done.
Qed.

Lemma decomposition_loop_image st :
  same_kind st →
  decomposition_loop image (map_state g st)
  = map_state g <$> decomposition_loop sequence st.
Proof using All.
  induction st as [st IH] using (remaining_ind sequence).
  intros Hkind.
  rewrite (decomposition_loop_eq image), (decomposition_loop_eq sequence).
  rewrite decomposition_body_image by done.
  destruct (decomposition_body sequence st) as [[|st']|e] eqn:Hbody; try done.
  apply IH; [by apply decomposition_body_remaining|by eapply same_kind_body].
Qed.

Lemma lempel_ziv_decomposition_image :
  lempel_ziv_decomposition image
  = (λ ps : list (pyseq A), g <$> ps) <$> lempel_ziv_decomposition sequence.
Proof using All.
  unfold lempel_ziv_decomposition.
  change (@initial B) with (map_state g (@initial A)).
  rewrite decomposition_loop_image by (by intros p ?%elem_of_nil).
  destruct (decomposition_loop sequence initial) as [st|e]; simpl; [|done].
  f_equal. apply phrases_map_state.
Qed.

Lemma lempel_ziv_complexity_slow_image :
  lempel_ziv_complexity_slow image = lempel_ziv_complexity_slow sequence.
Proof using All.
  unfold lempel_ziv_complexity_slow.
  rewrite !complexity_loop_decomposition_loop.
  change (@initial B) with (map_state g (@initial A)).
  rewrite decomposition_loop_image by (by intros p ?%elem_of_nil).
  destruct (decomposition_loop sequence initial) as [st|e]; simpl; [|done].
  f_equal. unfold dict_len. by rewrite length_fmap.
Qed.
End Simulation.

Section Relabel.
Context {A B : Type} `{EqDecision A} `{EqDecision B}.


(** X9: a str and a tuple of the same symbols have the same phrases,
    each in the container of the input, and the same complexity. *)
Theorem decomposition_retag (k : seq_kind) (sequence : pyseq A) :
  hashable (retag k sequence) = hashable sequence →
  lempel_ziv_decomposition (retag k sequence)
  = (λ ps : list (pyseq A), retag k <$> ps)
    <$> lempel_ziv_decomposition sequence
  ∧ lempel_ziv_complexity_slow (retag k sequence)
    = lempel_ziv_complexity_slow sequence.
Proof.
  intros Hhash.
  assert (∀ p q : pyseq A,
            kind p = kind sequence → kind q = kind sequence →
            retag k p = retag k q → p = q) as Hinj.
  { intros [k1 l1] [k2 l2]. simpl. intros -> -> [= ->]. done. }
  split.
  - by apply lempel_ziv_decomposition_image.
  - by apply (lempel_ziv_complexity_slow_image (retag k)).
Qed.
End Relabel.

(** ** Further properties: the two extremes *)

Section Extremes.
Context {A : Type} `{EqDecision A}.
Implicit Types (sequence : pyseq A) (st : state A).











End Extremes.

(** ** Further properties: parsing the phrases again *)

Section Reparse.
Context {A : Type} `{EqDecision A}.
Implicit Types (sequence : pyseq A) (st : state A).

(** X12: the returned phrases, put together, are a sequence whose
    decomposition is the same list of phrases: the symbols left after
    the last phrase have no part in the result, and without them nothing
    is left over. *)
Theorem decomposition_of_phrases sequence ps :
  lempel_ziv_decomposition sequence = Ok ps →
  lempel_ziv_decomposition (PySeq (kind sequence) (concat (items <$> ps)))
  = Ok ps.
Proof.
  intros Hps.
  destruct (hashable sequence) eqn:Hhash; cycle 1.
  { (* a list that does not raise is empty *)
    destruct (decide (items sequence = [])) as [Hnil|Hne].
    - destruct sequence as [k l]. simpl in *. subst l.
      assert (ps = []) as ->; [|done].
      unfold lempel_ziv_decomposition in Hps.
      rewrite decomposition_loop_eq in Hps. simpl in Hps. congruence.
    - destruct (unhashable_sequence_raises sequence Hhash Hne). congruence. }
  apply lempel_ziv_decomposition_Ok in Hps as (st & Hloop & -> & Hinv & Hexit).
  pose proof (decomposition_loop_Ok_length sequence st Hloop)
    as [Hnonempty Hstart].
  pose proof (inv_covered _ _ Hinv) as Hcov. rewrite Hcov.
  set (covered := PySeq (kind sequence) (take (ind st) (items sequence))).
  assert (extended covered (drop (ind st) (items sequence)) = sequence)
    as Hsequence.
  { destruct sequence as [k l]. unfold extended, covered. simpl.
    by rewrite take_drop. }
  assert (len covered = ind st) as Hlen.
  { unfold len, covered in *. simpl. rewrite length_take. lia. }
  destruct (decomposition_loop_hashable covered Hhash)
    as (st0 & Hloop0 & Hinv0 & Hexit0).
  assert (phrases st0 `prefix_of` phrases st) as [extra Hextra].
  { apply (decomposition_loop_phrases sequence).
    rewrite <-Hsequence at 1.
    rewrite <-(decomposition_loop_extended _ _ _ _ Hloop0).
    by rewrite Hsequence. }
  unfold lempel_ziv_decomposition. rewrite Hloop0. simpl. f_equal.
  change (dict_keys (sub_strings st0)) with (phrases st0).
  destruct extra as [|p extra]; [by rewrite Hextra, app_nil_r|].
  exfalso.
  (* the first further phrase would have been found in the dict *)
  assert (length (concat (items <$> phrases st0)) = ind st0) as Hcov0.
  { rewrite (inv_covered _ _ Hinv0), length_take.
    pose proof (inv_bound _ _ Hinv0). pose proof (inv_inc _ _ Hinv0).
    unfold len in *. lia. }
  assert (p ∈ phrases st) as Hp.
  { rewrite Hextra. apply elem_of_app. right. apply list_elem_of_here. }
  assert (concat (items <$> phrases st0) ++ items p
            ++ concat (items <$> extra)
          = take (ind st) (items covered)) as Hmiddle.
  { unfold covered. simpl. rewrite take_take, Nat.min_id, <-Hcov, Hextra.
    by rewrite fmap_app, fmap_cons, concat_app, concat_cons. }
  apply middle_of_take in Hmiddle as [Hitems Hle]. rewrite Hcov0 in Hitems, Hle.
  assert (p = slice covered (ind st0) (ind st0 + len p)) as Hslice.
  { destruct p as [k l]. unfold slice, len in *. simpl in *. f_equal.
    - by apply (inv_kind _ _ Hinv (PySeq k l)).
    - rewrite Hitems at 1. f_equal. lia. }
  assert (p ∈ phrases st0) as Hp0.
  { rewrite Hslice. apply (inv_seen _ _ Hinv0).
    pose proof (Hnonempty p Hp). unfold len in *. lia. }
  pose proof (inv_NoDup _ _ Hinv) as Hnd. rewrite Hextra in Hnd.
  apply NoDup_app in Hnd as (_ & Hdisjoint & _).
  apply (Hdisjoint p Hp0), list_elem_of_here.
Qed.

End Reparse.

(** ** Further properties: the number of runs of the body *)

Section RunCount.
Context {A : Type} `{EqDecision A}.
Implicit Types (sequence : pyseq A) (st : state A).



End RunCount.

(** ** Instances of the further properties on the documented inputs *)

Lemma decomposition_1010101010101010 :
  lempel_ziv_decomposition (str "1010101010101010")
  = Ok [str "1"; str "0"; str "10"; str "101"; str "01"; str "010";
        str "1010"].
Proof. vm_compute. reflexivity. Defined.

Lemma decomposition_1001111011000010 :
  lempel_ziv_decomposition (str "1001111011000010")
  = Ok ([str "1"; str "0"; str "01"]
        ++ str "11" :: [str "10"; str "110"; str "00"; str "010"]).
Proof. vm_compute. reflexivity. Defined.



Lemma phrase_is_slice_witness :
  str "11" = slice (str "1001111011000010") 4 6
  ∧ 0 < len (str "11")
  ∧ 4 + len (str "11") ≤ len (str "1001111011000010").
Proof.
  exact (phrase_is_slice (str "1001111011000010") _
           [str "1"; str "0"; str "01"] (str "11")
           [str "10"; str "110"; str "00"; str "010"]
           decomposition_1001111011000010 eq_refl).
Defined.

Lemma complexity_bounds_witness :
  lempel_ziv_decomposition (str "0000") = Ok [str "0"; str "00"]
  ∧ length [str "0"; str "00"] ≤ len (str "0000")
  ∧ ([str "0"; str "00"] = [] ↔ items (str "0000") = [])
  ∧ (items (str "0000") ≠ []
     → [str "0"; str "00"] !! 0 = Some (slice (str "0000") 0 1)).
Proof.
  split; [exact decomposition_0000|].
  exact (complexity_bounds (str "0000") _ decomposition_0000).
Defined.

Lemma phrase_length_le_index_witness :
  [str "1"; str "0"; str "10"; str "101"; str "01"; str "010"; str "1010"]
    !! 3 = Some (str "101")
  ∧ len (str "101") ≤ 4.
Proof.
  split; [reflexivity|].
  exact (phrase_length_le_index (str "1010101010101010") _ 3 (str "101")
           decomposition_1010101010101010 eq_refl).
Defined.

Lemma complexity_lower_bound_witness :
  lempel_ziv_decomposition (str "0000") = Ok [str "0"; str "00"]
  ∧ 2 * length (concat (items <$> [str "0"; str "00"])) ≤ 2 * (2 + 1)
  ∧ len (str "0000") - length (concat (items <$> [str "0"; str "00"])) ≤ 2
  ∧ 2 * len (str "0000") ≤ 2 * (2 + 3).
Proof.
  split; [exact decomposition_0000|].
  exact (complexity_lower_bound (str "0000") _ decomposition_0000).
Defined.



Lemma decomposition_retag_witness :
  hashable (retag PyTuple (str "0000")) = hashable (str "0000")
  ∧ lempel_ziv_decomposition (retag PyTuple (str "0000"))
    = (λ ps : list (pyseq ascii), retag PyTuple <$> ps)
      <$> lempel_ziv_decomposition (str "0000")
  ∧ lempel_ziv_complexity_slow (retag PyTuple (str "0000"))
    = lempel_ziv_complexity_slow (str "0000").
Proof.
  split; [reflexivity|].
  exact (decomposition_retag PyTuple (str "0000") eq_refl).
Defined.



Lemma decomposition_of_phrases_witness :
  lempel_ziv_decomposition (str "0000") = Ok [str "0"; str "00"]
  ∧ lempel_ziv_decomposition (str "000") = Ok [str "0"; str "00"].
Proof.
  split; [exact decomposition_0000|].
  exact (decomposition_of_phrases (str "0000") _ decomposition_0000).
Defined.

